(** * magnummsh.mesher: the Python wrapper around the native mesher

    A shallow embedding of [src/magnummsh/mesher.py]: the class [Mesher]
    (a subclass of the SWIG class [cpp.Mesher]) and the module-level
    function [Mesh].  The native side ([cpp.Mesher], [dolfin.Mesh]), numpy's
    array constructor and the binary operator [*] on foreign values are
    collaborators outside of the file; they are an arbitrary, stateful and
    possibly raising handler [extern] in the section below, and every call
    that crosses to them is recorded in a log. *)

From Stdlib Require Import ZArith Ascii String List Lia Bool.
From stdpp Require Import base option gmap strings list.

Local Open Scope string_scope.
Local Open Scope list_scope.
Set Warnings "-register-all".

(** ** Python values *)

(** Floats are kept as their IEEE-754 binary64 bit pattern; no arithmetic on
    them is performed on this side (see [py_mul] below). *)
Inductive pyval : Type :=
  | VNone
  | VBool (b : bool)
  | VInt (z : Z)
  | VFloat (bits : Z)
  | VStr (s : string)
  | VTuple (items : list pyval)
  | VList (items : list pyval)
  | VObj (addr : nat).

(** The literals of the source. *)
Definition float_0_0 : pyval := VFloat 0.
Definition float_1_0 : pyval := VFloat 0x3FF0000000000000.
Definition tuple_0_0_0 : pyval := VTuple [VInt 0; VInt 0; VInt 0].

(** ** The fragment of [re] used by [Mesh]

    [re.match(r'.*[.]xml$', s)] compiles to the opcode sequence
    MAX_REPEAT 0 MAXREPEAT (ANY); IN (LITERAL '.'); LITERAL 'x';
    LITERAL 'm'; LITERAL 'l'; AT AT_END.  No flag is given, so ANY refuses
    the line feed and AT_END holds at the end of the subject and just before
    a line feed that is its last character. *)
Module sre.

Definition LINEBREAK : ascii := "010"%char.

Inductive atom : Type :=
  | ANY
  | IN (set : list ascii)
  | LITERAL (c : ascii).

Inductive op : Type :=
  | ONE (a : atom)
  | MAX_REPEAT (a : atom)
  | AT_END.

Definition atom_ok (a : atom) (c : ascii) : bool :=
  match a with
  | ANY => negb (Ascii.eqb c LINEBREAK)
  | IN set => existsb (Ascii.eqb c) set
  | LITERAL c' => Ascii.eqb c c'
  end.

Definition at_end (s : string) : bool :=
  match s with
  | EmptyString => true
  | String c EmptyString => Ascii.eqb c LINEBREAK
  | _ => false
  end.

(** The backtracking matcher anchored at the start of [s] ([re.match]
    does not require the pattern to consume the whole subject).  A greedy
    repeat first tries one more character and falls back to the rest of
    the pattern. *)
Fixpoint match_here (p : list op) (s : string) {struct p} : bool :=
  match p with
  | [] => true
  | ONE a :: p' =>
      match s with
      | String c s' => atom_ok a c && match_here p' s'
      | EmptyString => false
      end
  | MAX_REPEAT a :: p' =>
      (fix repeat (s : string) : bool :=
         match s with
         | String c s' => (atom_ok a c && repeat s') || match_here p' s
         | EmptyString => match_here p' s
         end) s
  | AT_END :: p' => at_end s && match_here p' s
  end.

(** r'.*[.]xml$' *)
Definition xml_pattern : list op :=
  [MAX_REPEAT ANY; ONE (IN ["."%char]); ONE (LITERAL "x"%char);
   ONE (LITERAL "m"%char); ONE (LITERAL "l"%char); AT_END].

End sre.

(** The one-character string holding a line feed. *)
Definition LF : string := String sre.LINEBREAK EmptyString.

Fixpoint no_linebreak (s : string) : bool :=
  match s with
  | EmptyString => true
  | String c s' => negb (Ascii.eqb c sre.LINEBREAK) && no_linebreak s'
  end.

Definition has_suffix (suffix s : string) : Prop :=
  exists p, s = p +:+ suffix.

(** [s.endswith(suffix)] *)
Fixpoint ends_with (suffix s : string) : bool :=
  String.eqb s suffix ||
  match s with
  | EmptyString => false
  | String _ s' => ends_with suffix s'
  end.

(** The subjects that the pattern accepts, spelled out: a line without line
    feed that ends in [.xml], possibly followed by one final line feed. *)
Definition xml_name (s : string) : Prop :=
  exists p, no_linebreak p = true /\ (s = p +:+ ".xml" \/ s = p +:+ ".xml" +:+ LF).

(** ** Exceptions, outcomes and the calls that leave the module *)

Inductive exn : Type :=
  | TypeError (msg : string)
  | AttributeError (name : string)
  | Foreign (e : pyval).

Inductive result (A : Type) : Type :=
  | Ok (a : A)
  | Raise (e : exn).
Arguments Ok {A} a.
Arguments Raise {A} e.

(** [dtype="d"] (C double) and [dtype="i"] (C int). *)
Inductive dtype : Type := dtype_d | dtype_i.

(** One constructor per foreign entry point reached from the file.  The
    receiver of a method of [cpp.Mesher] is the address of the instance; the
    first argument of [dolfin_Mesh___init__] is the address of the instance
    under construction. *)
Inductive extcall : Type :=
  | cpp_Mesher___init__ (self : nat)
  | cpp_read_file (self : nat) (path : pyval)
  | cpp_create_cuboid (self : nat) (size n : pyval)
  | cpp_create_celldomain (self : nat) (domain domain_id : pyval)
  | cpp_create_facetdomain (self : nat) (domain domain_id : pyval)
  | cpp_create_shell (self : nat) (d margin n progression : pyval)
  | cpp_mesh (self : nat) (mesh scale : pyval)
  | cpp_get_sample_size (self : nat) (i : pyval)
  | dolfin_Mesh___init__ (self : nat) (args : list pyval)
      (kwargs : list (string * pyval))
  | numpy_array (object : pyval) (dt : dtype)
  | py_mul (a b : pyval).

(** The calls into [cpp.Mesher]: the meshing engine. *)
Definition is_Mesher_call (c : extcall) : bool :=
  match c with
  | dolfin_Mesh___init__ _ _ _ | numpy_array _ _ | py_mul _ _ => false
  | _ => true
  end.

(** The instance attributes that [Mesher.__init__] creates.  Both are
    assigned back to back after the base initialiser returned, so an
    instance has either none of them or both. *)
Record Mesher_attrs : Type := {
  _celldomains : list pyval;
  _facetdomains : list pyval
}.

(** The interpreter state: the next free object address, the attributes of
    the [Mesher] instances, the state of the foreign side and the log of the
    calls made to it, oldest first, each with its outcome. *)
Record state (W : Type) : Type := {
  next_addr : nat;
  attrs : gmap nat Mesher_attrs;
  world : W;
  log : list (extcall * result pyval)
}.
Arguments next_addr {W} _.
Arguments attrs {W} _.
Arguments world {W} _.
Arguments log {W} _.

Section Monad.

Context {W : Type}.

(** *** State and exception monad

    An exception ends the computation and keeps the state reached. *)
Definition M (A : Type) : Type := state W -> result A * state W.

Definition ret {A} (a : A) : M A := fun st => (Ok a, st).

Definition raise {A} (e : exn) : M A := fun st => (Raise e, st).

Definition bind {A B} (m : M A) (k : A -> M B) : M B :=
  fun st =>
    match m st with
    | (Ok a, st') => k a st'
    | (Raise e, st') => (Raise e, st')
    end.

(** [object.__new__]: a fresh address. *)
Definition alloc : M nat :=
  fun st =>
    (Ok (next_addr st),
     {| next_addr := S (next_addr st); attrs := attrs st;
        world := world st; log := log st |}).

Definition getattrs (self : nat) (name : string) : M Mesher_attrs :=
  fun st =>
    match attrs st !! self with
    | Some o => (Ok o, st)
    | None => (Raise (AttributeError name), st)
    end.

Definition setattrs (self : nat) (o : Mesher_attrs) : M unit :=
  fun st =>
    (Ok tt,
     {| next_addr := next_addr st; attrs := <[self := o]> (attrs st);
        world := world st; log := log st |}).

End Monad.

Arguments M W A : clear implicits.

Notation "x <- m ;; k" := (bind m (fun x => k))
  (at level 100, m at next level, right associativity).

Definition default (d : pyval) (o : option pyval) : pyval :=
  match o with
  | Some v => v
  | None => d
  end.

Definition range (n : nat) : list Z := map Z.of_nat (seq 0 n).

(** The methods a client can call on an instance, with their arguments; an
    optional argument left out is [None]. *)
Inductive method : Type :=
  | call_read_file (path : pyval)
  | call_create_cuboid (size n : pyval)
  | call_create_celldomain (domain domain_id : pyval)
  | call_create_facetdomain (domain domain_id : pyval)
  | call_create_shell (d : pyval) (margin n progression : option pyval)
  | call_mesh (scale mesh : option pyval)
  | call_get_sample_size (i scale : option pyval).

(** What a client of the module can do: instantiate [Mesher], call a method
    on an object, call [Mesh]. *)
Inductive action : Type :=
  | new_Mesher
  | on (self : nat) (m : method)
  | call_Mesh (args : list pyval) (kwargs : list (string * pyval)).

Definition celldomain_args (self : nat) (acts : list action) : list pyval :=
  flat_map (fun a =>
              match a with
              | on s (call_create_celldomain d _) =>
                  if Nat.eqb s self then [d] else []
              | _ => []
              end) acts.

Definition facetdomain_args (self : nat) (acts : list action) : list pyval :=
  flat_map (fun a =>
              match a with
              | on s (call_create_facetdomain d _) =>
                  if Nat.eqb s self then [d] else []
              | _ => []
              end) acts.

Section Wrapper.

Context {W : Type}.
Variable extern : extcall -> W -> result pyval * W.

Definition call (c : extcall) : M W pyval :=
  fun st =>
    let (r, w) := extern c (world st) in
    (r, {| next_addr := next_addr st; attrs := attrs st; world := w;
           log := log st ++ [(c, r)] |}).

(** [for x in xs: acc = body x acc] *)
Fixpoint for_in {A S} (xs : list A) (body : A -> S -> M W S) (acc : S) : M W S :=
  match xs with
  | [] => ret acc
  | x :: xs' => acc' <- body x acc ;; for_in xs' body acc'
  end.

(** [re.match(pattern, subject)]; [true] stands for a match object, which
    is truthy, [false] for [None]. *)
Definition re_match (p : list sre.op) (subject : pyval) : M W bool :=
  match subject with
  | VStr s => ret (sre.match_here p s)
  | _ => raise (TypeError "expected string or bytes-like object")
  end.

(** A call of the class [dolfin.Mesh] with the given positional and keyword
    arguments: a fresh instance, then its initialiser. *)
Definition dolfin_Mesh (args : list pyval) (kwargs : list (string * pyval))
  : M W pyval :=
  a <- alloc ;;
  _ <- call (dolfin_Mesh___init__ a args kwargs) ;;
  ret (VObj a).

(** *** class Mesher(cpp.Mesher) *)

Definition __init__ (self : nat) : M W pyval :=
  _ <- call (cpp_Mesher___init__ self) ;;
  _ <- setattrs self {| _celldomains := []; _facetdomains := [] |} ;;
  ret VNone.

(** [Mesher()] *)
Definition Mesher : M W nat :=
  self <- alloc ;;
  _ <- __init__ self ;;
  ret self.

(** Inherited unchanged from [cpp.Mesher]. *)
Definition read_file (self : nat) (path : pyval) : M W pyval :=
  call (cpp_read_file self path).

Definition create_cuboid (self : nat) (size n : pyval) : M W pyval :=
  a <- call (numpy_array size dtype_d) ;;
  b <- call (numpy_array n dtype_i) ;;
  call (cpp_create_cuboid self a b).

Definition create_celldomain (self : nat) (domain domain_id : pyval)
  : M W pyval :=
  o <- getattrs self "_celldomains" ;;
  _ <- setattrs self {| _celldomains := _celldomains o ++ [domain];
                        _facetdomains := _facetdomains o |} ;;
  call (cpp_create_celldomain self domain domain_id).

Definition create_facetdomain (self : nat) (domain domain_id : pyval)
  : M W pyval :=
  o <- getattrs self "_facetdomains" ;;
  _ <- setattrs self {| _celldomains := _celldomains o;
                        _facetdomains := _facetdomains o ++ [domain] |} ;;
  call (cpp_create_facetdomain self domain domain_id).

Definition create_shell (self : nat) (d : pyval)
    (margin n progression : option pyval) : M W pyval :=
  let margin := default float_0_0 margin in
  let n := default tuple_0_0_0 n in
  let progression := default float_1_0 progression in
  a <- call (numpy_array n dtype_i) ;;
  call (cpp_create_shell self d margin a progression).

Definition mesh (self : nat) (scale mesh : option pyval) : M W pyval :=
  let scale := default float_1_0 scale in
  let mesh := default VNone mesh in
  mesh <- match mesh with
          | VNone => dolfin_Mesh [] []
          | _ => ret mesh
          end ;;
  _ <- call (cpp_mesh self mesh scale) ;;
  ret mesh.

Definition get_sample_size (self : nat) (i scale : option pyval) : M W pyval :=
  let i := default VNone i in
  let scale := default float_1_0 scale in
  match i with
  | VNone =>
      size <- for_in (range 3)
                (fun i size =>
                   x <- call (cpp_get_sample_size self (VInt i)) ;;
                   y <- call (py_mul x scale) ;;
                   ret (size ++ [y]))
                [] ;;
      ret (VList size)
  | _ =>
      x <- call (cpp_get_sample_size self i) ;;
      call (py_mul x scale)
  end.

(** *** The function [Mesh], variadic in positional and keyword arguments *)

Definition Mesh (args : list pyval) (kwargs : list (string * pyval))
  : M W pyval :=
  cond <- (if Nat.eqb (length args) 1
           then m <- re_match sre.xml_pattern (nth 0 args VNone) ;;
                ret (negb m)
           else ret false) ;;
  if cond then
    mesher <- Mesher ;;
    _ <- read_file mesher (nth 0 args VNone) ;;
    mesh mesher None None
  else dolfin_Mesh args kwargs.

(** *** Clients *)

Definition invoke (self : nat) (m : method) : M W pyval :=
  match m with
  | call_read_file path => read_file self path
  | call_create_cuboid size n => create_cuboid self size n
  | call_create_celldomain domain domain_id =>
      create_celldomain self domain domain_id
  | call_create_facetdomain domain domain_id =>
      create_facetdomain self domain domain_id
  | call_create_shell d margin n progression =>
      create_shell self d margin n progression
  | call_mesh scale target => mesh self scale target
  | call_get_sample_size i scale => get_sample_size self i scale
  end.

Definition perform (a : action) : M W pyval :=
  match a with
  | new_Mesher => self <- Mesher ;; ret (VObj self)
  | on self m => invoke self m
  | call_Mesh args kwargs => Mesh args kwargs
  end.

(** A client that goes on after every outcome, an exception included. *)
Definition run_client (acts : list action) (st : state W) : state W :=
  fold_left (fun st a => snd (perform a st)) acts st.

End Wrapper.

(** ** Two foreign sides to run the wrapper against *)

(** Every foreign call returns [None]. *)
Definition quiet (c : extcall) (w : unit) : result pyval * unit :=
  (Ok VNone, w).

(** The foreign state counts the calls served.  numpy turns a tuple or a
    list into a list of the same items, the sample is 100 x 100 x 5, [*]
    multiplies integers, and a negative domain id is refused. *)
Definition demo (c : extcall) (w : nat) : result pyval * nat :=
  match c with
  | numpy_array (VTuple items) _ | numpy_array (VList items) _ =>
      (Ok (VList items), S w)
  | numpy_array _ _ => (Raise (TypeError "not a sequence"), S w)
  | cpp_get_sample_size _ (VInt 0) | cpp_get_sample_size _ (VInt 1) =>
      (Ok (VInt 100), S w)
  | cpp_get_sample_size _ (VInt 2) => (Ok (VInt 5), S w)
  | cpp_get_sample_size _ _ => (Raise (Foreign (VStr "IndexError")), S w)
  | py_mul (VInt a) (VInt b) => (Ok (VInt (a * b)), S w)
  | py_mul _ _ => (Raise (TypeError "unsupported operand"), S w)
  | cpp_create_celldomain _ _ (VInt id) | cpp_create_facetdomain _ _ (VInt id) =>
      if (id <? 0)%Z then (Raise (Foreign (VStr "invalid domain id")), S w)
      else (Ok VNone, S w)
  | _ => (Ok VNone, S w)
  end.

Definition empty_state {W} (w : W) : state W :=
  {| next_addr := 0; attrs := ∅; world := w; log := [] |}.

(** Every instance with attributes lies below the next free address. *)
Definition well_formed {W} (st : state W) : Prop :=
  map_Forall (fun a _ => a < next_addr st) (attrs st).

(** The state in which one [Mesher] was instantiated against [demo]; it is
    at address 0. *)
Definition demo_state : state nat := snd (Mesher demo (empty_state 0)).

(** A session of a client on that instance: two cell domains, the second
    with an id the engine refuses, a mesh read from a file, a facet domain,
    a second [Mesher] and a cell domain on it, and a query. *)
Definition demo_session : list action :=
  [on 0 (call_create_celldomain (VObj 100) (VInt 1));
   on 0 (call_create_celldomain (VObj 101) (VInt (-1)));
   call_Mesh [VStr "model.stl"] [];
   on 0 (call_create_facetdomain (VObj 102) (VInt 2));
   new_Mesher;
   on 3 (call_create_celldomain (VObj 103) (VInt 1));
   on 0 (call_get_sample_size None (Some (VInt 2)))].

(** [m] hands every exception of a foreign call to its caller as it is:
    whenever an entry of the log that [m] writes is an exception, that entry
    is the last one written and [m] ends with this very exception. *)
Definition propagates {W A} (m : M W A) : Prop :=
  forall st, exists new,
    log (snd (m st)) = log st ++ new /\
    forall i c e, new !! i = Some (c, Raise e) ->
      S i = length new /\ fst (m st) = Raise e.

(** [m] raises nothing of its own: an exception it ends with is the outcome
    of the last foreign call it made. *)
Definition raises_only_foreign {W A} (m : M W A) : Prop :=
  forall st, exists new,
    log (snd (m st)) = log st ++ new /\
    forall e, fst (m st) = Raise e ->
      exists before c, new = before ++ [(c, Raise e)].

(** The state after foreign calls: the foreign side has moved to [w] and
    [entries] were logged; nothing else changed. *)
Definition after_calls {W} (st : state W) (w : W)
    (entries : list (extcall * result pyval)) : state W :=
  {| next_addr := next_addr st; attrs := attrs st; world := w;
     log := log st ++ entries |}.

(** The same after one allocation. *)
Definition after_alloc {W} (st : state W) : state W :=
  {| next_addr := S (next_addr st); attrs := attrs st; world := world st;
     log := log st |}.

(** The foreign calls of [Mesher()], [read_file(path)], [mesh()] in a row,
    for an instance allocated at [a] and a mesh allocated at [S a]. *)
Definition file_route (a : nat) (path : pyval) : list extcall :=
  [cpp_Mesher___init__ a; cpp_read_file a path;
   dolfin_Mesh___init__ (S a) [] [];
   cpp_mesh a (VObj (S a)) (VFloat 0x3FF0000000000000)].

(** The call does not hand keyword arguments to [dolfin.Mesh]. *)
Definition without_kwargs (c : extcall) : Prop :=
  forall a args kwargs, c = dolfin_Mesh___init__ a args kwargs -> kwargs = [].

(** [st'] comes after [st] and the instance at [self], if it was allocated
    in [st], has the attributes it had. *)
Definition steady {W} (self : nat) (st st' : state W) : Prop :=
  next_addr st <= next_addr st' /\
  (well_formed st -> well_formed st') /\
  (self < next_addr st -> attrs st' !! self = attrs st !! self).

Definition keeps {W A} (self : nat) (m : M W A) : Prop :=
  forall st, steady self st (snd (m st)).

(** Appending [d] to one of the two lists. *)
Definition cell_append (d : pyval) (o : Mesher_attrs) : Mesher_attrs :=
  {| _celldomains := _celldomains o ++ [d]; _facetdomains := _facetdomains o |}.

Definition facet_append (d : pyval) (o : Mesher_attrs) : Mesher_attrs :=
  {| _celldomains := _celldomains o; _facetdomains := _facetdomains o ++ [d] |}.

(** [m] leaves the attributes of every instance as they are. *)
Definition attrs_fixed {W A} (m : M W A) : Prop :=
  forall st, attrs (snd (m st)) = attrs st.

(** What [Mesher.__init__] assigns. *)
Definition fresh_attrs : Mesher_attrs :=
  {| _celldomains := []; _facetdomains := [] |}.

(** A foreign side on which no file can be read and meshing fails; every
    other call returns [None]. *)
Definition faulty (c : extcall) (w : unit) : result pyval * unit :=
  match c with
  | cpp_read_file _ _ => (Raise (Foreign (VStr "IOError")), w)
  | cpp_mesh _ _ _ => (Raise (Foreign (VStr "RuntimeError")), w)
  | _ => (Ok VNone, w)
  end.

(** The state in which one [Mesher] was instantiated against [quiet]. *)
Definition quiet_state : state unit := snd (Mesher quiet (empty_state tt)).

(** ** What the pattern accepts *)

Section Pattern.

Import sre.

Lemma append_nil_l (t : string) : "" +:+ t = t.
Proof. reflexivity. Qed.

Lemma append_cons c (p t : string) : String c p +:+ t = String c (p +:+ t).
Proof. reflexivity. Qed.

Lemma match_repeat_cons a p c s :
  match_here (MAX_REPEAT a :: p) (String c s) =
  (atom_ok a c && match_here (MAX_REPEAT a :: p) s) || match_here p (String c s).
Proof. reflexivity. Qed.

Lemma match_repeat_any p s :
  match_here (MAX_REPEAT ANY :: p) s = true <->
  exists pre t, s = pre +:+ t /\ no_linebreak pre = true /\ match_here p t = true.
Proof.
  induction s as [|c s IH].
  - split.
    + intros H. exists "", "". simpl in *. auto.
    + intros (pre & t & E & _ & H).
      destruct pre; rewrite ?append_cons, ?append_nil_l in E;
        [subst t; exact H | discriminate].
  - rewrite match_repeat_cons, orb_true_iff, andb_true_iff, IH. split.
    + intros [[Hc (pre & t & -> & Hp & Ht)] | H].
      * exists (String c pre), t. simpl in *. rewrite Hc, Hp. auto.
      * exists "", (String c s). auto.
    + intros (pre & t & E & Hp & Ht).
      destruct pre as [|c' pre]; rewrite ?append_cons, ?append_nil_l in E.
      * right. subst t. exact Ht.
      * injection E as -> ->. simpl in Hp.
        apply andb_true_iff in Hp as [Hc Hp].
        left. split; [exact Hc | exists pre, t; auto].
Qed.

Lemma match_literal c p s :
  match_here (ONE (LITERAL c) :: p) s = true <->
  exists s', s = String c s' /\ match_here p s' = true.
Proof.
  destruct s as [|c' s]; simpl.
  - split; [discriminate | intros (s' & E & _); discriminate].
  - rewrite andb_true_iff, Ascii.eqb_eq. split.
    + intros [-> H]. eauto.
    + intros (s' & E & H). injection E as -> ->. auto.
Qed.

Lemma match_in_singleton c p s :
  match_here (ONE (IN [c]) :: p) s = true <->
  exists s', s = String c s' /\ match_here p s' = true.
Proof.
  destruct s as [|c' s]; simpl.
  - split; [discriminate | intros (s' & E & _); discriminate].
  - rewrite orb_false_r, andb_true_iff, Ascii.eqb_eq. split.
    + intros [-> H]. eauto.
    + intros (s' & E & H). injection E as -> ->. auto.
Qed.

Lemma match_at_end s :
  match_here [AT_END] s = true <-> s = "" \/ s = LF.
Proof.
  simpl. rewrite andb_true_r. destruct s as [|c [|c' s]]; simpl.
  - intuition.
  - rewrite Ascii.eqb_eq. unfold LF. split.
    + intros ->. auto.
    + intros [E | E]; [discriminate | now injection E].
  - split; [discriminate | intros [E | E]; discriminate].
Qed.

Lemma match_xml_tail t :
  match_here (tl xml_pattern) t = true <-> t = ".xml" \/ t = ".xml" +:+ LF.
Proof.
  simpl tl. split.
  - intros H. apply match_in_singleton in H as (s1 & -> & H).
    apply match_literal in H as (s2 & -> & H).
    apply match_literal in H as (s3 & -> & H).
    apply match_literal in H as (s4 & -> & H).
    apply match_at_end in H as [-> | ->]; auto.
  - intros [-> | ->]; reflexivity.
Qed.

(** The subjects for which [re.match(r'.*[.]xml$', s)] is a match. *)
Lemma match_xml_pattern s :
  match_here xml_pattern s = true <-> xml_name s.
Proof.
  change xml_pattern with (MAX_REPEAT ANY :: tl xml_pattern).
  rewrite match_repeat_any. unfold xml_name. split.
  - intros (pre & t & -> & Hp & Ht). apply match_xml_tail in Ht.
    exists pre. split; [exact Hp |]. destruct Ht as [-> | ->]; auto.
  - intros (pre & Hp & Hs).
    destruct Hs as [-> | ->]; eexists pre, _;
      (split; [reflexivity | split; [exact Hp | reflexivity]]).
Qed.

Lemma unmatched_xml_pattern s :
  match_here xml_pattern s = false <-> ~ xml_name s.
Proof.
  rewrite <- match_xml_pattern. destruct (match_here xml_pattern s); split;
    congruence.
Qed.

Lemma no_linebreak_app p t :
  no_linebreak (p +:+ t) = no_linebreak p && no_linebreak t.
Proof.
  induction p as [|c p IH]; [reflexivity |].
  rewrite append_cons. simpl. now rewrite IH, andb_assoc.
Qed.

(** On a subject without line feed the pattern tests the suffix. *)
Lemma xml_name_one_line s :
  no_linebreak s = true -> (xml_name s <-> has_suffix ".xml" s).
Proof.
  intros Hs. split.
  - intros (p & Hp & [-> | ->]); [now exists p |].
    rewrite no_linebreak_app in Hs. apply andb_true_iff in Hs as [_ Hs].
    discriminate Hs.
  - intros (p & ->). exists p. split; [| now left].
    rewrite no_linebreak_app in Hs. now apply andb_true_iff in Hs as [Hs _].
Qed.

Lemma ends_with_spec suffix s :
  ends_with suffix s = true <-> has_suffix suffix s.
Proof.
  unfold has_suffix. induction s as [|c s IH].
  - cbn [ends_with]. rewrite orb_false_r, String.eqb_eq. split.
    + intros <-. now exists "".
    + intros ([|c p] & E); rewrite ?append_cons, ?append_nil_l in E;
        [exact E | discriminate].
  - cbn [ends_with]. rewrite orb_true_iff, String.eqb_eq, IH. split.
    + intros [<- | (p & ->)]; [now exists "" | now exists (String c p)].
    + intros ([|c' p] & E); rewrite ?append_cons, ?append_nil_l in E.
      * now left.
      * injection E as -> ->. right. now exists p.
Qed.

Lemma not_ends_with_spec suffix s :
  ends_with suffix s = false <-> ~ has_suffix suffix s.
Proof.
  rewrite <- ends_with_spec. destruct (ends_with suffix s); split; congruence.
Qed.

(** The pattern at a few subjects. *)
Example match_model_stl : match_here xml_pattern "model.stl" = false.
Proof. reflexivity. Qed.

Example match_saved_xml : match_here xml_pattern "saved.xml" = true.
Proof. reflexivity. Qed.

Example match_bare_xml : match_here xml_pattern "xml" = false.
Proof. reflexivity. Qed.

Example match_xml_in_the_middle : match_here xml_pattern "a.xml.msh" = false.
Proof. reflexivity. Qed.

Example match_final_line_feed : match_here xml_pattern ("a.xml" +:+ LF) = true.
Proof. reflexivity. Qed.

Example match_second_line : match_here xml_pattern (LF +:+ ".xml") = false.
Proof. reflexivity. Qed.

End Pattern.

(** ** The wrapper against an arbitrary foreign side *)

Section Properties.

Context {W : Type}.
Variable extern : extcall -> W -> result pyval * W.

(** *** Exceptions *)

Lemma propagates_silent {A} (m : M W A) :
  (forall st, log (snd (m st)) = log st) -> propagates m.
Proof.
  intros H st. exists []. rewrite app_nil_r. split; [apply H |].
  intros i c e Hi. destruct i; discriminate Hi.
Qed.

Lemma propagates_ret {A} (a : A) : propagates (W:=W) (ret a).
Proof. now apply propagates_silent. Qed.

Lemma propagates_raise {A} e : propagates (W:=W) (A:=A) (raise e).
Proof. now apply propagates_silent. Qed.

Lemma propagates_alloc : propagates (W:=W) alloc.
Proof. now apply propagates_silent. Qed.

Lemma propagates_setattrs self o : propagates (W:=W) (setattrs self o).
Proof. now apply propagates_silent. Qed.

Lemma propagates_getattrs self name : propagates (W:=W) (getattrs self name).
Proof.
  apply propagates_silent. intros st. unfold getattrs.
  now destruct (attrs st !! self).
Qed.

Lemma propagates_call c : propagates (call extern c).
Proof.
  intros st. unfold call. destruct (extern c (world st)) as [r w].
  exists [(c, r)]. split; [reflexivity |].
  intros [|i] c' e Hi; [| destruct i; discriminate Hi].
  injection Hi as <- ->. auto.
Qed.

Lemma propagates_bind {A B} (m : M W A) (k : A -> M W B) :
  propagates m -> (forall a, propagates (k a)) -> propagates (x <- m ;; k x).
Proof.
  intros Hm Hk st. destruct (Hm st) as (new1 & E1 & P1). unfold bind.
  destruct (m st) as [[a | e] st1]; simpl in *.
  - destruct (Hk a st1) as (new2 & E2 & P2). exists (new1 ++ new2). split.
    + now rewrite E2, E1, app_assoc.
    + intros i c e Hi. apply lookup_app_Some in Hi as [Hi | [Hge Hi]].
      * now destruct (P1 _ _ _ Hi).
      * destruct (P2 _ _ _ Hi) as [Hlen Hr]. split; [| exact Hr].
        rewrite length_app. lia.
  - exists new1. split; [exact E1 |].
    intros i c e' Hi. destruct (P1 _ _ _ Hi) as [Hlen Hr].
    split; [exact Hlen | congruence].
Qed.

Lemma propagates_for_in {A S} (xs : list A) (body : A -> S -> M W S) acc :
  (forall x acc', propagates (body x acc')) ->
  propagates (for_in xs body acc).
Proof.
  intros Hbody. revert acc.
  induction xs as [|x xs IH]; intros acc; simpl.
  - apply propagates_ret.
  - apply propagates_bind; auto.
Qed.

Create HintDb propagate.
Hint Resolve propagates_ret propagates_raise propagates_alloc
  propagates_setattrs propagates_getattrs propagates_call propagates_bind
  propagates_for_in : propagate.

Lemma propagates_dolfin_Mesh args kwargs :
  propagates (dolfin_Mesh extern args kwargs).
Proof. unfold dolfin_Mesh. auto with propagate. Qed.

Lemma propagates_Mesher : propagates (Mesher extern).
Proof. unfold Mesher, __init__. auto 7 with propagate. Qed.

Lemma propagates_mesh self scale target :
  propagates (mesh extern self scale target).
Proof.
  pose proof propagates_dolfin_Mesh. unfold mesh.
  destruct (default VNone target); auto with propagate.
Qed.

Lemma propagates_invoke self m : propagates (invoke extern self m).
Proof.
  destruct m; simpl; try apply propagates_mesh;
    unfold read_file, create_cuboid, create_celldomain, create_facetdomain,
      create_shell, get_sample_size;
    try destruct (default VNone i); auto 7 with propagate.
Qed.

Lemma propagates_Mesh args kwargs : propagates (Mesh extern args kwargs).
Proof.
  pose proof propagates_dolfin_Mesh. pose proof propagates_Mesher.
  pose proof propagates_mesh. unfold Mesh, re_match, read_file.
  apply propagates_bind.
  - destruct (Nat.eqb (length args) 1); [destruct (nth 0 args VNone) |];
      auto with propagate.
  - intros [|]; auto with propagate.
Qed.

(** *** Running a method step by step *)

(** [step H] runs the next foreign call, whose outcome is given by [H];
    [finish] compares the states reached. *)
Ltac step H :=
  unfold bind, call; simpl; rewrite H; simpl.

Ltac finish :=
  unfold after_calls, after_alloc, ret; simpl;
  rewrite <- ?app_assoc; simpl; reflexivity.

Lemma raises_only_foreign_ret {A} (a : A) : raises_only_foreign (W:=W) (ret a).
Proof.
  intros st. exists []. rewrite app_nil_r. split; [reflexivity |].
  intros e H. discriminate H.
Qed.

Lemma raises_only_foreign_call c : raises_only_foreign (call extern c).
Proof.
  intros st. unfold call. destruct (extern c (world st)) as [r w].
  exists [(c, r)]. split; [reflexivity |]. simpl. intros e ->.
  now exists [], c.
Qed.

Lemma raises_only_foreign_bind {A B} (m : M W A) (k : A -> M W B) :
  raises_only_foreign m -> (forall a, raises_only_foreign (k a)) ->
  raises_only_foreign (x <- m ;; k x).
Proof.
  intros Hm Hk st. destruct (Hm st) as (new1 & E1 & P1). unfold bind.
  destruct (m st) as [[a | e] st1]; simpl in *.
  - destruct (Hk a st1) as (new2 & E2 & P2). exists (new1 ++ new2). split.
    + now rewrite E2, E1, app_assoc.
    + intros e He. destruct (P2 e He) as (before & c & ->).
      exists (new1 ++ before), c. now rewrite app_assoc.
  - exists new1. split; [exact E1 |]. intros e' He.
    apply P1. congruence.
Qed.

Hint Resolve raises_only_foreign_ret raises_only_foreign_call
  raises_only_foreign_bind : propagate.

(** *** C6 *)

(** C6: [create_cuboid] hands to the engine's [create_cuboid] exactly what
    [numpy.array(size, dtype="d")] and [numpy.array(n, dtype="i")]
    returned, in this order, and returns the engine's outcome; it makes no
    other call and, whatever [size] and [n] are (no sign or zero check), it
    raises nothing of its own. *)
Theorem create_cuboid_forwards self size n st a w1 b w2 r w3 :
  extern (numpy_array size dtype_d) (world st) = (Ok a, w1) ->
  extern (numpy_array n dtype_i) w1 = (Ok b, w2) ->
  extern (cpp_create_cuboid self a b) w2 = (r, w3) ->
  create_cuboid extern self size n st =
    (r, after_calls st w3
          [(numpy_array size dtype_d, Ok a);
           (numpy_array n dtype_i, Ok b);
           (cpp_create_cuboid self a b, r)])
  /\ raises_only_foreign (create_cuboid extern self size n).
Proof.
  intros H1 H2 H3. split.
  - unfold create_cuboid. step H1. step H2. step H3. finish.
  - unfold create_cuboid. auto with propagate.
Qed.

(** *** C7 *)

(** C7: [create_shell] makes two foreign calls: numpy's coercion of [n]
    to [dtype="i"], then the engine's [create_shell] with [d], [margin],
    the coerced [n] and [progression] in this order, whose outcome it
    returns.  A [margin], [n] or [progression] that the caller gives is the
    one coerced or passed on; an omitted [margin] is 0.0, an omitted [n] is
    (0, 0, 0), an omitted [progression] is 1.0. *)
Theorem create_shell_forwards self d margin n progression st a w1 r w2 :
  extern (numpy_array
            match n with
            | Some n' => n'
            | None => VTuple [VInt 0; VInt 0; VInt 0]
            end dtype_i) (world st) = (Ok a, w1) ->
  extern (cpp_create_shell self d
            match margin with
            | Some margin' => margin'
            | None => VFloat 0
            end
            a
            match progression with
            | Some progression' => progression'
            | None => VFloat 0x3FF0000000000000
            end) w1 = (r, w2) ->
  create_shell extern self d margin n progression st =
    (r, after_calls st w2
          [(numpy_array
              match n with
              | Some n' => n'
              | None => VTuple [VInt 0; VInt 0; VInt 0]
              end dtype_i, Ok a);
           (cpp_create_shell self d
              match margin with
              | Some margin' => margin'
              | None => VFloat 0
              end
              a
              match progression with
              | Some progression' => progression'
              | None => VFloat 0x3FF0000000000000
              end, r)]).
Proof.
  intros H1 H2.
  unfold create_shell, default, float_0_0, float_1_0, tuple_0_0_0.
  destruct margin, n, progression; step H1; step H2; finish.
Qed.

(** *** C4 *)

Ltac split_calls :=
  repeat match goal with
         | |- context [extern ?c ?w] =>
             destruct (extern c w) as [[?|?] ?]; simpl
         end.


(** *** C5 *)


(** *** C9 *)

(** C9: on an initialised instance, when the engine's [create_celldomain]
    raises, [create_celldomain] ends with that exception and the
    classifier is nevertheless at the end of [_celldomains]; the same for
    [create_facetdomain] and [_facetdomains].  The only foreign call is
    made after the list was extended. *)
Theorem create_domain_retains_on_error self domain domain_id st o e w1 :
  attrs st !! self = Some o ->
  (extern (cpp_create_celldomain self domain domain_id) (world st)
     = (Raise e, w1) ->
   create_celldomain extern self domain domain_id st =
     (Raise e,
      {| next_addr := next_addr st;
         attrs := <[self := {| _celldomains := _celldomains o ++ [domain];
                               _facetdomains := _facetdomains o |}]>
                    (attrs st);
         world := w1;
         log := log st ++
                [(cpp_create_celldomain self domain domain_id, Raise e)] |}))
  /\
  (extern (cpp_create_facetdomain self domain domain_id) (world st)
     = (Raise e, w1) ->
   create_facetdomain extern self domain domain_id st =
     (Raise e,
      {| next_addr := next_addr st;
         attrs := <[self := {| _celldomains := _celldomains o;
                               _facetdomains := _facetdomains o ++ [domain] |}]>
                    (attrs st);
         world := w1;
         log := log st ++
                [(cpp_create_facetdomain self domain domain_id, Raise e)] |})).
Proof.
  intros Ho. split; intros H1.
  - unfold create_celldomain, bind, getattrs. rewrite Ho. simpl.
    unfold call. simpl. now rewrite H1.
  - unfold create_facetdomain, bind, getattrs. rewrite Ho. simpl.
    unfold call. simpl. now rewrite H1.
Qed.

(** *** The two routes of [Mesh] *)

Lemma Mesh_unmatched s kwargs st :
  sre.match_here sre.xml_pattern s = false ->
  Mesh extern [VStr s] kwargs st =
    (mesher <- Mesher extern ;;
     _ <- read_file extern mesher (VStr s) ;;
     mesh extern mesher None None) st.
Proof.
  intros H. unfold Mesh, re_match. cbn [length Nat.eqb nth].
  unfold bind at 1 2, ret. now rewrite H.
Qed.

Lemma Mesh_matched s kwargs st :
  sre.match_here sre.xml_pattern s = true ->
  Mesh extern [VStr s] kwargs st = dolfin_Mesh extern [VStr s] kwargs st.
Proof.
  intros H. unfold Mesh, re_match. cbn [length Nat.eqb nth].
  unfold bind at 1 2, ret. now rewrite H.
Qed.

Lemma Mesh_not_one args kwargs st :
  length args <> 1 ->
  Mesh extern args kwargs st = dolfin_Mesh extern args kwargs st.
Proof.
  intros H. unfold Mesh. apply Nat.eqb_neq in H. rewrite H. reflexivity.
Qed.

Lemma file_route_log s st :
  exists r rest,
    log (snd ((mesher <- Mesher extern ;;
               _ <- read_file extern mesher (VStr s) ;;
               mesh extern mesher None None) st))
      = log st ++ (cpp_Mesher___init__ (next_addr st), r) :: rest /\
    map fst ((cpp_Mesher___init__ (next_addr st), r) :: rest)
      `prefix_of` file_route (next_addr st) (VStr s).
Proof.
  unfold Mesher, __init__, read_file, mesh, dolfin_Mesh, file_route, float_1_0.
  simpl. unfold bind, call, alloc, setattrs, ret. simpl.
  split_calls;
    (do 2 eexists; split; [rewrite <- ?app_assoc; reflexivity |]);
    simpl; eexists; reflexivity.
Qed.

Lemma file_route_without_kwargs a path l :
  l `prefix_of` file_route a path -> Forall without_kwargs l.
Proof.
  intros [k E]. apply Forall_forall. intros c Hc.
  assert (Hin : c ∈ file_route a path) by (rewrite E; set_solver).
  unfold file_route in Hin. intros a' args kwargs ->.
  repeat (apply elem_of_cons in Hin as [Hin | Hin]; [congruence |]).
  now apply elem_of_nil in Hin.
Qed.

(** *** The route through [Mesher] *)

(** A call of [Mesh] with one positional argument, a string that the
    pattern does not match, and any keyword arguments, is [Mesher()], then
    [read_file] with the string on the instance, then [mesh()] without
    arguments, whose result it returns.  Its foreign calls are the first of
    [file_route], in this order, up to the first that raises; [dolfin.Mesh]
    is instantiated without arguments only.  When no call raises, the result
    is the mesh allocated on the way. *)
Lemma Mesh_reads_file s kwargs st :
  ~ xml_name s ->
  Mesh extern [VStr s] kwargs st =
    (mesher <- Mesher extern ;;
     _ <- read_file extern mesher (VStr s) ;;
     mesh extern mesher None None) st
  /\
  (exists new,
     log (snd (Mesh extern [VStr s] kwargs st)) = log st ++ new /\
     map fst new `prefix_of` file_route (next_addr st) (VStr s) /\
     Forall (fun c => forall a args kw,
               c = dolfin_Mesh___init__ a args kw -> args = [] /\ kw = [])
       (map fst new))
  /\
  (forall v1 w1 v2 w2 v3 w3 v4 w4,
     extern (cpp_Mesher___init__ (next_addr st)) (world st) = (Ok v1, w1) ->
     extern (cpp_read_file (next_addr st) (VStr s)) w1 = (Ok v2, w2) ->
     extern (dolfin_Mesh___init__ (S (next_addr st)) [] []) w2
       = (Ok v3, w3) ->
     extern (cpp_mesh (next_addr st) (VObj (S (next_addr st)))
               (VFloat 0x3FF0000000000000)) w3 = (Ok v4, w4) ->
     Mesh extern [VStr s] kwargs st =
       (Ok (VObj (S (next_addr st))),
        {| next_addr := S (S (next_addr st));
           attrs := <[next_addr st :=
                        {| _celldomains := []; _facetdomains := [] |}]>
                      (attrs st);
           world := w4;
           log := log st ++
                  combine (file_route (next_addr st) (VStr s))
                    [Ok v1; Ok v2; Ok v3; Ok v4] |})).
Proof.
  intros Hs. apply unmatched_xml_pattern in Hs.
  rewrite (Mesh_unmatched _ kwargs st Hs). split; [reflexivity | split].
  - destruct (file_route_log s st) as (r & rest & E & P).
    eexists. split; [exact E | split; [exact P |]].
    destruct P as [k P]. apply Forall_forall. intros c Hc a args kw ->.
    assert (Hin : dolfin_Mesh___init__ a args kw
                  ∈ file_route (next_addr st) (VStr s))
      by (rewrite P; apply elem_of_app; left; exact Hc).
    unfold file_route in Hin.
    repeat (apply elem_of_cons in Hin as [Hin | Hin];
            [try discriminate; injection Hin as _ <- <-; auto |]).
    now apply elem_of_nil in Hin.
  - intros v1 w1 v2 w2 v3 w3 v4 w4 H1 H2 H3 H4.
    unfold Mesher, __init__, read_file, mesh, dolfin_Mesh, float_1_0.
    simpl. unfold alloc, setattrs.
    step H1. step H2. step H3. step H4. finish.
Qed.

(** *** The direct route *)

(** A call of [Mesh] with no positional argument, with two or more, or
    with one that is a string that the pattern matches, is the call of
    [dolfin.Mesh] with the same positional and keyword arguments: its only
    foreign call is the initialiser of the fresh [dolfin.Mesh] instance with
    them, whose exception, if any, it ends with. *)
Lemma Mesh_bypasses_Mesher args kwargs st :
  length args <> 1 \/ (exists s, args = [VStr s] /\ xml_name s) ->
  Mesh extern args kwargs st = dolfin_Mesh extern args kwargs st /\
  exists r w,
    extern (dolfin_Mesh___init__ (next_addr st) args kwargs) (world st)
      = (r, w) /\
    Mesh extern args kwargs st =
      (match r with
       | Ok _ => Ok (VObj (next_addr st))
       | Raise e => Raise e
       end,
       after_calls (after_alloc st) w
         [(dolfin_Mesh___init__ (next_addr st) args kwargs, r)]).
Proof.
  intros H.
  assert (E : Mesh extern args kwargs st = dolfin_Mesh extern args kwargs st).
  { destruct H as [H | (s & -> & H)].
    - now apply Mesh_not_one.
    - apply Mesh_matched. now apply match_xml_pattern. }
  split; [exact E |]. rewrite E. unfold dolfin_Mesh, bind, alloc, call. simpl.
  destruct (extern _ _) as [[v | e] w]; do 2 eexists; (split; [reflexivity |]);
    reflexivity.
Qed.

(** *** The keyword arguments *)

(** The branch that [Mesh] takes does not depend on the keyword arguments:
    for any positional arguments, either two calls that differ in the
    keyword arguments only do the same, or both are the call of
    [dolfin.Mesh] with their arguments.  With one positional argument, a
    string that the pattern does not match, the keyword arguments have no
    effect at all, the first foreign call is the base initialiser of the new
    [Mesher], and no call that follows hands a keyword argument to
    [dolfin.Mesh]. *)
Lemma Mesh_drops_kwargs s kwargs st :
  ~ xml_name s ->
  (forall kwargs',
     Mesh extern [VStr s] kwargs st = Mesh extern [VStr s] kwargs' st)
  /\
  (exists r rest,
     log (snd (Mesh extern [VStr s] kwargs st))
       = log st ++ (cpp_Mesher___init__ (next_addr st), r) :: rest /\
     Forall without_kwargs (map fst rest))
  /\
  (forall args kw1 kw2 st',
     Mesh extern args kw1 st' = Mesh extern args kw2 st' \/
     (Mesh extern args kw1 st' = dolfin_Mesh extern args kw1 st' /\
      Mesh extern args kw2 st' = dolfin_Mesh extern args kw2 st')).
Proof.
  intros Hs. apply unmatched_xml_pattern in Hs. split; [| split].
  - intros kwargs'. now rewrite !Mesh_unmatched.
  - rewrite (Mesh_unmatched _ kwargs st Hs).
    destruct (file_route_log s st) as (r & rest & E & P).
    exists r, rest. split; [exact E |].
    apply file_route_without_kwargs in P. now inversion P.
  - intros args kw1 kw2 st'.
    destruct (Nat.eq_dec (length args) 1) as [Hlen | Hlen].
    + destruct args as [|x [|y args]]; try discriminate Hlen.
      destruct x; try (left; reflexivity).
      destruct (sre.match_here sre.xml_pattern s0) eqn:Hm.
      * right. now rewrite !Mesh_matched.
      * left. now rewrite !Mesh_unmatched.
    + right. now rewrite !Mesh_not_one.
Qed.

(** *** [Mesh] on file names without line feed *)

Lemma one_line_not_xml s :
  no_linebreak s = true -> ends_with ".xml" s = false -> ~ xml_name s.
Proof.
  intros Hl He Hx. apply (xml_name_one_line s Hl) in Hx.
  apply not_ends_with_spec in He. now apply He.
Qed.

(** X13: a call of [Mesh] with one positional argument, a string without
    line feed that does not end in [.xml], and any keyword arguments, is
    [Mesher()], then [read_file] with the string on the new instance, then
    [mesh()] without arguments, whose result it returns.  Its foreign calls
    are the first of [file_route], in this order, up to the first that
    raises; when none raises the result is the mesh allocated on the way.
    The keyword arguments have no effect. *)
Theorem Mesh_one_line_file s kwargs st :
  no_linebreak s = true -> ends_with ".xml" s = false ->
  Mesh extern [VStr s] kwargs st =
    (mesher <- Mesher extern ;;
     _ <- read_file extern mesher (VStr s) ;;
     mesh extern mesher None None) st
  /\
  (exists new,
     log (snd (Mesh extern [VStr s] kwargs st)) = log st ++ new /\
     map fst new `prefix_of` file_route (next_addr st) (VStr s))
  /\
  (forall v1 w1 v2 w2 v3 w3 v4 w4,
     extern (cpp_Mesher___init__ (next_addr st)) (world st) = (Ok v1, w1) ->
     extern (cpp_read_file (next_addr st) (VStr s)) w1 = (Ok v2, w2) ->
     extern (dolfin_Mesh___init__ (S (next_addr st)) [] []) w2
       = (Ok v3, w3) ->
     extern (cpp_mesh (next_addr st) (VObj (S (next_addr st)))
               (VFloat 0x3FF0000000000000)) w3 = (Ok v4, w4) ->
     Mesh extern [VStr s] kwargs st =
       (Ok (VObj (S (next_addr st))),
        {| next_addr := S (S (next_addr st));
           attrs := <[next_addr st := fresh_attrs]> (attrs st);
           world := w4;
           log := log st ++
                  combine (file_route (next_addr st) (VStr s))
                    [Ok v1; Ok v2; Ok v3; Ok v4] |}))
  /\
  (forall kwargs',
     Mesh extern [VStr s] kwargs st = Mesh extern [VStr s] kwargs' st).
Proof.
  intros Hl He. pose proof (one_line_not_xml s Hl He) as Hx.
  destruct (Mesh_reads_file s kwargs st Hx) as (A & (new & E & P & _) & C).
  destruct (Mesh_drops_kwargs s kwargs st Hx) as (D & _).
  split; [exact A | split; [| split; [exact C | exact D]]].
  exists new. split; [exact E | exact P].
Qed.

(** X14: a call of [Mesh] with no positional argument, with two or more, or
    with one that is a string without line feed ending in [.xml], is the call
    of [dolfin.Mesh] with the same positional and keyword arguments: the
    only foreign call is the initialiser of the fresh [dolfin.Mesh] instance
    with exactly these arguments; [Mesh] returns the instance, or ends with
    the exception of the initialiser.  No [Mesher] is instantiated and the
    engine is not called. *)
Theorem Mesh_one_line_direct args kwargs st :
  length args <> 1 \/
  (exists s, args = [VStr s] /\
             no_linebreak s = true /\ ends_with ".xml" s = true) ->
  exists r w,
    extern (dolfin_Mesh___init__ (next_addr st) args kwargs) (world st)
      = (r, w) /\
    Mesh extern args kwargs st =
      (match r with
       | Ok _ => Ok (VObj (next_addr st))
       | Raise e => Raise e
       end,
       after_calls (after_alloc st) w
         [(dolfin_Mesh___init__ (next_addr st) args kwargs, r)]).
Proof.
  intros H. apply Mesh_bypasses_Mesher.
  destruct H as [H | (s & -> & Hl & He)]; [now left | right].
  exists s. split; [reflexivity |].
  apply (xml_name_one_line s Hl). now apply ends_with_spec.
Qed.

(** *** The lists of classifiers *)

Lemma steady_refl self (st : state W) : steady self st st.
Proof. unfold steady. auto. Qed.

Lemma steady_trans self (st1 st2 st3 : state W) :
  steady self st1 st2 -> steady self st2 st3 -> steady self st1 st3.
Proof.
  intros (N1 & F1 & A1) (N2 & F2 & A2). split; [lia | split; [auto |]].
  intros Hself. rewrite A2, A1; [reflexivity | lia | lia].
Qed.

Lemma keeps_ret {A} self (a : A) : keeps (W:=W) self (ret a).
Proof. intros st. apply steady_refl. Qed.

Lemma keeps_raise {A} self e : keeps (W:=W) (A:=A) self (raise e).
Proof. intros st. apply steady_refl. Qed.

Lemma keeps_call self c : keeps self (call extern c).
Proof.
  intros st. unfold call. destruct (extern c (world st)) as [r w].
  unfold steady, well_formed. simpl. auto.
Qed.

Lemma keeps_alloc self : keeps (W:=W) self alloc.
Proof.
  intros st. unfold steady, well_formed. simpl.
  split; [lia | split; [| reflexivity]].
  intros Hwf a o Ha. specialize (Hwf a o Ha). simpl in *. lia.
Qed.

Lemma keeps_bind {A B} self (m : M W A) (k : A -> M W B) :
  keeps self m -> (forall a, keeps self (k a)) -> keeps self (x <- m ;; k x).
Proof.
  intros Hm Hk st. specialize (Hm st). unfold bind.
  destruct (m st) as [[a | e] st1]; simpl in *; [| exact Hm].
  eapply steady_trans; [exact Hm | apply Hk].
Qed.

Lemma keeps_for_in {A S} self (xs : list A) (body : A -> S -> M W S) acc :
  (forall x acc', keeps self (body x acc')) -> keeps self (for_in xs body acc).
Proof.
  intros Hbody. revert acc.
  induction xs as [|x xs IH]; intros acc; simpl.
  - apply keeps_ret.
  - apply keeps_bind; auto.
Qed.

Create HintDb keep.
Hint Resolve keeps_ret keeps_raise keeps_call keeps_alloc keeps_bind
  keeps_for_in : keep.

(** A new instance gets the next address, which no older one has. *)
Lemma keeps_Mesher self : keeps self (Mesher extern).
Proof.
  intros st. unfold Mesher, __init__, bind, alloc, call, setattrs. simpl.
  destruct (extern _ _) as [[v | e] w]; unfold steady, well_formed; simpl;
    (split; [lia | split]).
  - intros Hwf a o Ha. apply lookup_insert_Some in Ha as [[<- _] | [_ Ha]].
    + simpl. lia.
    + specialize (Hwf a o Ha). simpl in *. lia.
  - intros Hself. apply lookup_insert_ne. lia.
  - intros Hwf a o Ha. specialize (Hwf a o Ha). simpl in *. lia.
  - reflexivity.
Qed.

Lemma keeps_dolfin_Mesh self args kwargs :
  keeps self (dolfin_Mesh extern args kwargs).
Proof. unfold dolfin_Mesh. auto with keep. Qed.

Lemma keeps_mesh self self' scale target :
  keeps self (mesh extern self' scale target).
Proof.
  pose proof (keeps_dolfin_Mesh self). unfold mesh.
  destruct (default VNone target); auto with keep.
Qed.

Lemma keeps_Mesh self args kwargs : keeps self (Mesh extern args kwargs).
Proof.
  pose proof (keeps_dolfin_Mesh self). pose proof (keeps_Mesher self).
  pose proof (keeps_mesh self). unfold Mesh, re_match, read_file.
  apply keeps_bind.
  - destruct (Nat.eqb (length args) 1); [destruct (nth 0 args VNone) |];
      auto with keep.
  - intros [|]; auto with keep.
Qed.

(** What the two methods that touch the lists do to the attributes. *)
Lemma create_celldomain_state self' d id st :
  next_addr (snd (create_celldomain extern self' d id st)) = next_addr st /\
  attrs (snd (create_celldomain extern self' d id st)) =
    match attrs st !! self' with
    | Some o => <[self' := cell_append d o]> (attrs st)
    | None => attrs st
    end.
Proof.
  unfold create_celldomain, bind, getattrs, setattrs, call.
  destruct (attrs st !! self') as [o |]; simpl; [| auto].
  now destruct (extern _ _).
Qed.

Lemma create_facetdomain_state self' d id st :
  next_addr (snd (create_facetdomain extern self' d id st)) = next_addr st /\
  attrs (snd (create_facetdomain extern self' d id st)) =
    match attrs st !! self' with
    | Some o => <[self' := facet_append d o]> (attrs st)
    | None => attrs st
    end.
Proof.
  unfold create_facetdomain, bind, getattrs, setattrs, call.
  destruct (attrs st !! self') as [o |]; simpl; [| auto].
  now destruct (extern _ _).
Qed.

Lemma update_well_formed (st st' : state W) self' (f : Mesher_attrs -> Mesher_attrs) :
  next_addr st' = next_addr st ->
  attrs st' = match attrs st !! self' with
              | Some o => <[self' := f o]> (attrs st)
              | None => attrs st
              end ->
  well_formed st -> well_formed st'.
Proof.
  intros Hn Ha Hwf a o. rewrite Hn, Ha.
  destruct (attrs st !! self') as [o' |] eqn:Ho'; [| apply Hwf].
  intros H. apply lookup_insert_Some in H as [[<- _] | [_ H]]; eauto.
Qed.

Lemma update_lookup (st st' : state W) self self' o
    (f : Mesher_attrs -> Mesher_attrs) :
  attrs st' = match attrs st !! self' with
              | Some o => <[self' := f o]> (attrs st)
              | None => attrs st
              end ->
  attrs st !! self = Some o ->
  attrs st' !! self = Some (if Nat.eqb self' self then f o else o).
Proof.
  intros -> Ho. destruct (Nat.eqb_spec self' self) as [-> | Hne].
  - rewrite Ho. apply lookup_insert_eq.
  - destruct (attrs st !! self'); [| exact Ho].
    now rewrite lookup_insert_ne.
Qed.

Lemma keeps_other_methods self self' m :
  (forall d id, m <> call_create_celldomain d id) ->
  (forall d id, m <> call_create_facetdomain d id) ->
  keeps self (invoke extern self' m).
Proof.
  intros Hc Hf. destruct m; simpl;
    try (now destruct (Hc domain domain_id));
    try (now destruct (Hf domain domain_id));
    try apply keeps_mesh;
    unfold read_file, create_cuboid, create_shell, get_sample_size;
    try destruct (default VNone i); auto 7 with keep.
Qed.

Lemma attrs_eta (o : Mesher_attrs) :
  {| _celldomains := _celldomains o ++ [];
     _facetdomains := _facetdomains o ++ [] |} = o.
Proof. destruct o. simpl. now rewrite !app_nil_r. Qed.

Lemma celldomain_args_cons self a acts :
  celldomain_args self (a :: acts) =
  celldomain_args self [a] ++ celldomain_args self acts.
Proof. unfold celldomain_args. simpl. now rewrite app_nil_r. Qed.

Lemma facetdomain_args_cons self a acts :
  facetdomain_args self (a :: acts) =
  facetdomain_args self [a] ++ facetdomain_args self acts.
Proof. unfold facetdomain_args. simpl. now rewrite app_nil_r. Qed.

(** One action of a client, seen from the instance at [self]. *)
Lemma perform_step a st self o :
  well_formed st -> attrs st !! self = Some o ->
  well_formed (snd (perform extern a st)) /\
  attrs (snd (perform extern a st)) !! self =
    Some {| _celldomains := _celldomains o ++ celldomain_args self [a];
            _facetdomains := _facetdomains o ++ facetdomain_args self [a] |}.
Proof.
  intros Hwf Ho. pose proof (Hwf _ _ Ho) as Hself.
  assert (Hkeep : keeps self (perform extern a) ->
                  well_formed (snd (perform extern a st)) /\
                  attrs (snd (perform extern a st)) !! self = Some o).
  { intros Hk. destruct (Hk st) as (_ & F & A). split; [auto |].
    now rewrite A. }
  destruct a as [| s m | args kwargs].
  - simpl celldomain_args. simpl facetdomain_args. rewrite attrs_eta.
    apply Hkeep. simpl. pose proof (keeps_Mesher self). auto with keep.
  - destruct m;
      try (simpl celldomain_args; simpl facetdomain_args; rewrite attrs_eta;
           apply Hkeep; now apply keeps_other_methods).
    + destruct (create_celldomain_state s domain domain_id st) as [Hn Ha].
      split; [eapply update_well_formed; eauto |].
      simpl perform. simpl invoke.
      rewrite (update_lookup _ _ _ _ _ _ Ha Ho). f_equal.
      simpl. destruct (Nat.eqb s self); simpl; [now rewrite app_nil_r |].
      symmetry. apply attrs_eta.
    + destruct (create_facetdomain_state s domain domain_id st) as [Hn Ha].
      split; [eapply update_well_formed; eauto |].
      simpl perform. simpl invoke.
      rewrite (update_lookup _ _ _ _ _ _ Ha Ho). f_equal.
      simpl. destruct (Nat.eqb s self); simpl; [now rewrite app_nil_r |].
      symmetry. apply attrs_eta.
  - simpl celldomain_args. simpl facetdomain_args. rewrite attrs_eta.
    apply Hkeep. apply keeps_Mesh.
Qed.

Lemma run_client_state acts : forall st self o,
  well_formed st -> attrs st !! self = Some o ->
  attrs (run_client extern acts st) !! self =
    Some {| _celldomains := _celldomains o ++ celldomain_args self acts;
            _facetdomains := _facetdomains o ++ facetdomain_args self acts |}.
Proof.
  induction acts as [|a acts IH]; intros st self o Hwf Ho.
  - simpl. now rewrite attrs_eta.
  - destruct (perform_step a st self o Hwf Ho) as [Hwf' Ho'].
    change (run_client extern (a :: acts) st)
      with (run_client extern acts (snd (perform extern a st))).
    rewrite (IH _ _ _ Hwf' Ho'). cbn [_celldomains _facetdomains].
    rewrite (celldomain_args_cons self a acts).
    rewrite (facetdomain_args_cons self a acts).
    now rewrite !app_assoc.
Qed.

(** *** C3 *)

(** C3: take an initialised instance at [self] in a well-formed state and
    let a client do anything, in any order and going on after exceptions:
    instantiate [Mesher], call methods on this or any other object, call
    [Mesh].  Afterwards [_celldomains] of the instance is what it was,
    followed by the classifiers passed to [create_celldomain] on this
    instance in the order of the calls, whether the engine accepted them or
    not, and the same for [_facetdomains] and [create_facetdomain].  So the
    lists only grow at their end, each classifier passed is in its list,
    and nothing else changes them. *)
Theorem domain_lists_grow self o acts st :
  well_formed st -> attrs st !! self = Some o ->
  exists o',
    attrs (run_client extern acts st) !! self = Some o' /\
    _celldomains o' = _celldomains o ++ celldomain_args self acts /\
    _facetdomains o' = _facetdomains o ++ facetdomain_args self acts /\
    _celldomains o `prefix_of` _celldomains o' /\
    _facetdomains o `prefix_of` _facetdomains o' /\
    (forall d, d ∈ celldomain_args self acts -> d ∈ _celldomains o') /\
    (forall d, d ∈ facetdomain_args self acts -> d ∈ _facetdomains o').
Proof.
  intros Hwf Ho. eexists.
  split; [exact (run_client_state acts st self o Hwf Ho) |].
  cbn [_celldomains _facetdomains].
  repeat split; try (now eexists); intros d Hd; apply elem_of_app; now right.
Qed.

(** *** C8 *)

(** C8: every method of [Mesher], the instantiation of [Mesher] and [Mesh]
    hand an exception of a foreign call (the engine, [dolfin.Mesh], numpy,
    the operator) to the caller as it is: in every run, a foreign call that
    raised is the last foreign call of the run (nothing is retried or done
    instead), and the run ends with the exception that this call raised
    (nothing is caught or replaced). *)
Theorem foreign_exceptions_propagate :
  (forall self m, propagates (invoke extern self m)) /\
  propagates (Mesher extern) /\
  (forall args kwargs, propagates (Mesh extern args kwargs)).
Proof.
  split; [| split].
  - apply propagates_invoke.
  - apply propagates_Mesher.
  - apply propagates_Mesh.
Qed.

(** *** Further properties of the methods *)

(** X2: [Mesh] with one positional argument that is not a string raises the
    [TypeError] of [re.match] before anything else happens: no object is
    allocated, no foreign call is made, and [dolfin.Mesh] is not reached,
    whatever the keyword arguments. *)
Theorem Mesh_single_non_string x kwargs st :
  (forall s, x <> VStr s) ->
  exists msg, Mesh extern [x] kwargs st = (Raise (TypeError msg), st).
Proof.
  intros Hx. unfold Mesh, re_match. cbn [length Nat.eqb nth].
  destruct x; try (eexists; reflexivity). now destruct (Hx s).
Qed.


(** X4: [create_cuboid] coerces [size] first: when that raises, [n] is not
    looked at and the engine is not called; when the coercion of [n] raises,
    the engine is not called either.  In both cases the method ends with
    the exception of the coercion. *)
Theorem create_cuboid_coercion_fails self size n st :
  (forall e w1,
     extern (numpy_array size dtype_d) (world st) = (Raise e, w1) ->
     create_cuboid extern self size n st =
       (Raise e, after_calls st w1 [(numpy_array size dtype_d, Raise e)]))
  /\
  (forall a w1 e w2,
     extern (numpy_array size dtype_d) (world st) = (Ok a, w1) ->
     extern (numpy_array n dtype_i) w1 = (Raise e, w2) ->
     create_cuboid extern self size n st =
       (Raise e,
        after_calls st w2
          [(numpy_array size dtype_d, Ok a);
           (numpy_array n dtype_i, Raise e)])).
Proof.
  split.
  - intros e w1 H1. unfold create_cuboid. step H1. finish.
  - intros a w1 e w2 H1 H2. unfold create_cuboid. step H1. step H2. finish.
Qed.

(** X5: [mesh] without target builds the [dolfin.Mesh] before it calls the
    engine.  When the initialiser of [dolfin.Mesh] raises, the engine is not
    called; when the engine raises, the mesh object has been allocated and
    initialised all the same, and it is not returned. *)
Theorem mesh_failures self scale st :
  (forall e w1,
     extern (dolfin_Mesh___init__ (next_addr st) [] []) (world st)
       = (Raise e, w1) ->
     mesh extern self scale None st =
       (Raise e,
        after_calls (after_alloc st) w1
          [(dolfin_Mesh___init__ (next_addr st) [] [], Raise e)]))
  /\
  (forall v w1 e w2,
     extern (dolfin_Mesh___init__ (next_addr st) [] []) (world st)
       = (Ok v, w1) ->
     extern (cpp_mesh self (VObj (next_addr st))
               (default (VFloat 0x3FF0000000000000) scale)) w1
       = (Raise e, w2) ->
     mesh extern self scale None st =
       (Raise e,
        after_calls (after_alloc st) w2
          [(dolfin_Mesh___init__ (next_addr st) [] [], Ok v);
           (cpp_mesh self (VObj (next_addr st))
              (default (VFloat 0x3FF0000000000000) scale), Raise e)])).
Proof.
  split.
  - intros e w1 H1. unfold mesh, dolfin_Mesh, float_1_0. simpl. unfold alloc.
    step H1. finish.
  - intros v w1 e w2 H1 H2. unfold mesh, dolfin_Mesh, float_1_0. simpl.
    unfold alloc. step H1. step H2. finish.
Qed.

(** X6: [Mesher()] gives, when the base initialiser returns, an instance at
    the next free address with two empty lists; when the base initialiser
    raises, the address is used up and no attribute is created.  In a
    well-formed state the instances that exist keep their attributes in
    either case. *)
Theorem Mesher_new_instance st :
  (forall v w,
     extern (cpp_Mesher___init__ (next_addr st)) (world st) = (Ok v, w) ->
     Mesher extern st =
       (Ok (next_addr st),
        {| next_addr := S (next_addr st);
           attrs := <[next_addr st := fresh_attrs]> (attrs st);
           world := w;
           log := log st ++ [(cpp_Mesher___init__ (next_addr st), Ok v)] |}))
  /\
  (forall e w,
     extern (cpp_Mesher___init__ (next_addr st)) (world st) = (Raise e, w) ->
     Mesher extern st =
       (Raise e,
        after_calls (after_alloc st) w
          [(cpp_Mesher___init__ (next_addr st), Raise e)]))
  /\
  (well_formed st ->
   forall b o, attrs st !! b = Some o ->
     attrs (snd (Mesher extern st)) !! b = Some o).
Proof.
  split; [| split].
  - intros v w H1. unfold Mesher, __init__. simpl. unfold alloc, setattrs.
    step H1. finish.
  - intros e w H1. unfold Mesher, __init__. simpl. unfold alloc, setattrs.
    step H1. finish.
  - intros Hwf b o Hb. destruct (keeps_Mesher b st) as (_ & _ & A).
    rewrite A; [exact Hb |]. exact (Hwf b o Hb).
Qed.

(** X7: on the route through [Mesher], when the file cannot be read [Mesh]
    ends with the exception of [read_file]: no [dolfin.Mesh] is allocated or
    initialised and the engine's [mesh] is not called. *)
Theorem Mesh_unreadable_file s kwargs st v w1 e w2 :
  ~ xml_name s ->
  extern (cpp_Mesher___init__ (next_addr st)) (world st) = (Ok v, w1) ->
  extern (cpp_read_file (next_addr st) (VStr s)) w1 = (Raise e, w2) ->
  Mesh extern [VStr s] kwargs st =
    (Raise e,
     {| next_addr := S (next_addr st);
        attrs := <[next_addr st := fresh_attrs]> (attrs st);
        world := w2;
        log := log st ++
               [(cpp_Mesher___init__ (next_addr st), Ok v);
                (cpp_read_file (next_addr st) (VStr s), Raise e)] |}).
Proof.
  intros Hs H1 H2. apply unmatched_xml_pattern in Hs.
  rewrite (Mesh_unmatched _ kwargs st Hs).
  unfold Mesher, __init__, read_file. simpl. unfold alloc, setattrs.
  step H1. step H2. finish.
Qed.

(** *** Exceptions of the methods' own *)

Lemma raises_only_foreign_alloc : raises_only_foreign (W:=W) alloc.
Proof.
  intros st. exists []. rewrite app_nil_r. split; [reflexivity |].
  intros e H. discriminate H.
Qed.

Lemma raises_only_foreign_setattrs self o :
  raises_only_foreign (W:=W) (setattrs self o).
Proof.
  intros st. exists []. rewrite app_nil_r. split; [reflexivity |].
  intros e H. discriminate H.
Qed.

Lemma raises_only_foreign_for_in {A S} (xs : list A) (body : A -> S -> M W S)
    acc :
  (forall x acc', raises_only_foreign (body x acc')) ->
  raises_only_foreign (for_in xs body acc).
Proof.
  intros Hbody. revert acc.
  induction xs as [|x xs IH]; intros acc; simpl.
  - apply raises_only_foreign_ret.
  - apply raises_only_foreign_bind; auto.
Qed.

Hint Resolve raises_only_foreign_alloc raises_only_foreign_setattrs
  raises_only_foreign_for_in : propagate.

(** X8: the instantiation of [Mesher] and every method other than
    [create_celldomain] and [create_facetdomain] raise nothing of their own,
    whatever their arguments: an exception they end with is the outcome of
    the last foreign call made.  No argument is checked on this side. *)
Theorem methods_raise_only_foreign :
  raises_only_foreign (Mesher extern) /\
  (forall self m,
     (forall d id, m <> call_create_celldomain d id) ->
     (forall d id, m <> call_create_facetdomain d id) ->
     raises_only_foreign (invoke extern self m)).
Proof.
  split.
  - unfold Mesher, __init__. auto 7 with propagate.
  - intros self m Hc Hf. destruct m; simpl;
      try (now destruct (Hc domain domain_id));
      try (now destruct (Hf domain domain_id));
      unfold read_file, create_cuboid, create_shell, mesh, dolfin_Mesh,
        get_sample_size;
      try destruct (default VNone i); try destruct (default VNone mesh0);
      auto 9 with propagate.
Qed.

(** X9: on an object without the attributes (one that [Mesher.__init__] did
    not initialise) [create_celldomain] and [create_facetdomain] raise
    [AttributeError] for their list; the engine is not called and nothing
    changes. *)
Theorem create_domain_uninitialised self domain domain_id st :
  attrs st !! self = None ->
  create_celldomain extern self domain domain_id st =
    (Raise (AttributeError "_celldomains"), st) /\
  create_facetdomain extern self domain domain_id st =
    (Raise (AttributeError "_facetdomains"), st).
Proof.
  intros H. unfold create_celldomain, create_facetdomain, bind, getattrs.
  now rewrite H.
Qed.

(** *** Where attributes come from *)

Lemma attrs_fixed_ret {A} (a : A) : attrs_fixed (W:=W) (ret a).
Proof. intros st. reflexivity. Qed.

Lemma attrs_fixed_raise {A} e : attrs_fixed (W:=W) (A:=A) (raise e).
Proof. intros st. reflexivity. Qed.

Lemma attrs_fixed_alloc : attrs_fixed (W:=W) alloc.
Proof. intros st. reflexivity. Qed.

Lemma attrs_fixed_call c : attrs_fixed (call extern c).
Proof. intros st. unfold call. now destruct (extern c (world st)). Qed.

Lemma attrs_fixed_bind {A B} (m : M W A) (k : A -> M W B) :
  attrs_fixed m -> (forall a, attrs_fixed (k a)) -> attrs_fixed (x <- m ;; k x).
Proof.
  intros Hm Hk st. specialize (Hm st). unfold bind.
  destruct (m st) as [[a | e] st1]; simpl in *; [| exact Hm].
  now rewrite Hk.
Qed.

Lemma attrs_fixed_for_in {A S} (xs : list A) (body : A -> S -> M W S) acc :
  (forall x acc', attrs_fixed (body x acc')) ->
  attrs_fixed (for_in xs body acc).
Proof.
  intros Hbody. revert acc.
  induction xs as [|x xs IH]; intros acc; simpl.
  - apply attrs_fixed_ret.
  - apply attrs_fixed_bind; auto.
Qed.

Create HintDb fixed.
Hint Resolve attrs_fixed_ret attrs_fixed_raise attrs_fixed_alloc
  attrs_fixed_call attrs_fixed_bind attrs_fixed_for_in : fixed.

Lemma attrs_fixed_dolfin_Mesh args kwargs :
  attrs_fixed (dolfin_Mesh extern args kwargs).
Proof. unfold dolfin_Mesh. auto with fixed. Qed.

Lemma attrs_fixed_mesh self scale target :
  attrs_fixed (mesh extern self scale target).
Proof.
  pose proof attrs_fixed_dolfin_Mesh. unfold mesh.
  destruct (default VNone target); auto with fixed.
Qed.

Lemma attrs_fixed_other_methods self m :
  (forall d id, m <> call_create_celldomain d id) ->
  (forall d id, m <> call_create_facetdomain d id) ->
  attrs_fixed (invoke extern self m).
Proof.
  intros Hc Hf. destruct m; simpl;
    try (now destruct (Hc domain domain_id));
    try (now destruct (Hf domain domain_id));
    try apply attrs_fixed_mesh;
    unfold read_file, create_cuboid, create_shell, get_sample_size;
    try destruct (default VNone i); auto 7 with fixed.
Qed.

Lemma Mesher_attrs_cases st :
  attrs (snd (Mesher extern st)) = attrs st \/
  attrs (snd (Mesher extern st)) = <[next_addr st := fresh_attrs]> (attrs st).
Proof.
  unfold Mesher, __init__, bind, alloc, call, setattrs. simpl.
  destruct (extern _ _) as [[v | e] w]; simpl; auto.
Qed.

Lemma Mesh_attrs_cases args kwargs st :
  attrs (snd (Mesh extern args kwargs st)) = attrs st \/
  attrs (snd (Mesh extern args kwargs st))
    = <[next_addr st := fresh_attrs]> (attrs st).
Proof.
  unfold Mesh, re_match.
  destruct (Nat.eqb (length args) 1); [destruct (nth 0 args VNone) |];
    try (left; reflexivity);
    try (left; apply (attrs_fixed_dolfin_Mesh args kwargs st)).
  unfold bind at 1 2, ret.
  destruct (sre.match_here sre.xml_pattern s); simpl;
    [left; apply (attrs_fixed_dolfin_Mesh args kwargs st) |].
  unfold Mesher, __init__, read_file, mesh, dolfin_Mesh. simpl.
  unfold bind, call, alloc, setattrs, ret. simpl.
  split_calls; auto.
Qed.

(** An instance that comes to exist during an action has two empty lists. *)
Lemma perform_new_instance a st b o :
  attrs st !! b = None ->
  attrs (snd (perform extern a st)) !! b = Some o ->
  o = fresh_attrs.
Proof.
  intros Hb Ho.
  assert (Hcases : forall m : M W pyval,
            attrs (snd (m st)) = attrs st \/
            attrs (snd (m st)) = <[next_addr st := fresh_attrs]> (attrs st) ->
            attrs (snd (m st)) !! b = Some o -> o = fresh_attrs).
  { intros m [E | E] H; rewrite E in H; [congruence |].
    apply lookup_insert_Some in H as [[_ H] | [_ H]]; congruence. }
  destruct a as [| s m | args kwargs].
  - apply (Hcases (perform extern new_Mesher)); [| exact Ho].
    simpl. unfold bind. pose proof (Mesher_attrs_cases st) as H.
    now destruct (Mesher extern st) as [[? | ?] ?].
  - cbn [perform] in Ho. destruct m;
      try (match type of Ho with
           | context [invoke extern s ?m] =>
               assert (E : attrs (snd (invoke extern s m st)) = attrs st)
                 by (apply attrs_fixed_other_methods; discriminate);
               rewrite E in Ho; congruence
           end).
    + simpl in Ho.
      destruct (create_celldomain_state s domain domain_id st) as [_ E].
      rewrite E in Ho. destruct (attrs st !! s) as [o' |] eqn:Hs;
        [| congruence].
      apply lookup_insert_Some in Ho as [[<- _] | [_ Ho]]; congruence.
    + simpl in Ho.
      destruct (create_facetdomain_state s domain domain_id st) as [_ E].
      rewrite E in Ho. destruct (attrs st !! s) as [o' |] eqn:Hs;
        [| congruence].
      apply lookup_insert_Some in Ho as [[<- _] | [_ Ho]]; congruence.
  - apply (Hcases (perform extern (call_Mesh args kwargs))); [| exact Ho].
    apply Mesh_attrs_cases.
Qed.

Lemma perform_well_formed a st :
  well_formed st -> well_formed (snd (perform extern a st)).
Proof.
  intros Hwf.
  assert (Hkeep : keeps 0 (perform extern a) ->
                  well_formed (snd (perform extern a st))).
  { intros Hk. destruct (Hk st) as (_ & F & _). auto. }
  destruct a as [| s m | args kwargs].
  - apply Hkeep. simpl. pose proof (keeps_Mesher 0). auto with keep.
  - destruct m; try (apply Hkeep; now apply keeps_other_methods).
    + destruct (create_celldomain_state s domain domain_id st) as [Hn Ha].
      eapply update_well_formed; eauto.
    + destruct (create_facetdomain_state s domain domain_id st) as [Hn Ha].
      eapply update_well_formed; eauto.
  - apply Hkeep. apply keeps_Mesh.
Qed.

Lemma run_client_well_formed acts : forall st,
  well_formed st -> well_formed (run_client extern acts st).
Proof.
  induction acts as [|a acts IH]; intros st Hwf; [exact Hwf |].
  apply (IH (snd (perform extern a st))). now apply perform_well_formed.
Qed.

Lemma run_client_contents acts : forall st b o,
  well_formed st ->
  attrs (run_client extern acts st) !! b = Some o ->
  match attrs st !! b with
  | Some o0 =>
      o = {| _celldomains := _celldomains o0 ++ celldomain_args b acts;
             _facetdomains := _facetdomains o0 ++ facetdomain_args b acts |}
  | None =>
      _celldomains o `suffix_of` celldomain_args b acts /\
      _facetdomains o `suffix_of` facetdomain_args b acts
  end.
Proof.
  induction acts as [|a acts IH]; intros st b o Hwf Ho.
  - simpl in Ho. rewrite Ho. now rewrite attrs_eta.
  - destruct (attrs st !! b) as [o0 |] eqn:Hb.
    + rewrite (run_client_state _ _ _ _ Hwf Hb) in Ho. congruence.
    + change (run_client extern (a :: acts) st)
        with (run_client extern acts (snd (perform extern a st))) in Ho.
      pose proof (perform_well_formed a st Hwf) as Hwf1.
      specialize (IH _ _ _ Hwf1 Ho).
      rewrite celldomain_args_cons, facetdomain_args_cons.
      destruct (attrs (snd (perform extern a st)) !! b) as [o1 |] eqn:Hb1.
      * rewrite (perform_new_instance a st b o1 Hb Hb1) in IH.
        subst o. simpl. split; now apply suffix_app_r.
      * destruct IH as [Hc Hf]. split; now apply suffix_app_r.
Qed.

(** X11: whatever a client does from the start, the lists of an instance
    hold nothing but classifiers that were passed to [create_celldomain]
    (resp. [create_facetdomain]) on this very instance, in the order of the
    calls: each list is a final segment of the classifiers passed at its
    address during the session. *)
Theorem lists_hold_only_passed_classifiers acts w b o :
  attrs (run_client extern acts (empty_state w)) !! b = Some o ->
  _celldomains o `suffix_of` celldomain_args b acts /\
  _facetdomains o `suffix_of` facetdomain_args b acts.
Proof.
  intros Ho.
  assert (Hwf : well_formed (empty_state w)) by apply map_Forall_empty.
  apply (run_client_contents acts _ _ _ Hwf Ho).
Qed.

End Properties.

(** ** The pattern and the suffix test *)

(** X1: on a subject without line feed, [re.match(r'.*[.]xml$', s)] is a
    match exactly when [s.endswith(".xml")]; on any subject, a match implies
    that the subject ends in [.xml] or in [.xml] followed by a line feed. *)
Theorem pattern_and_suffix s :
  (no_linebreak s = true ->
   sre.match_here sre.xml_pattern s = ends_with ".xml" s) /\
  (sre.match_here sre.xml_pattern s = true ->
   ends_with ".xml" s || ends_with (".xml" +:+ LF) s = true).
Proof.
  split.
  - intros Hs. pose proof (match_xml_pattern s) as Hm.
    pose proof (xml_name_one_line s Hs) as Hx.
    pose proof (ends_with_spec ".xml" s) as He.
    destruct (sre.match_here sre.xml_pattern s), (ends_with ".xml" s);
      try reflexivity.
    + assert (H : false = true) by tauto. discriminate H.
    + assert (H : false = true) by tauto. discriminate H.
  - intros Hm. apply match_xml_pattern in Hm as (p & _ & [-> | ->]).
    + apply orb_true_iff. left. apply ends_with_spec. now exists p.
    + apply orb_true_iff. right. apply ends_with_spec. now exists p.
Qed.

(** ** The lists and the foreign side *)

(** X12: what the lists of an instance hold after a session does not depend
    on the foreign side: the same session run against two engines, from
    well-formed states in which the instance has the same attributes, leaves
    the instance with the same attributes, whatever the engines return or
    raise. *)
Theorem lists_independent_of_foreign_side {W1 W2 : Type}
    (extern1 : extcall -> W1 -> result pyval * W1)
    (extern2 : extcall -> W2 -> result pyval * W2)
    acts (st1 : state W1) (st2 : state W2) self o :
  well_formed st1 -> well_formed st2 ->
  attrs st1 !! self = Some o -> attrs st2 !! self = Some o ->
  attrs (run_client extern1 acts st1) !! self =
  attrs (run_client extern2 acts st2) !! self.
Proof.
  intros Hwf1 Hwf2 H1 H2.
  rewrite (run_client_state extern1 acts st1 self o Hwf1 H1).
  now rewrite (run_client_state extern2 acts st2 self o Hwf2 H2).
Qed.

(** ** The statements at concrete calls *)

Lemma demo_state_well_formed : well_formed demo_state.
Proof.
  unfold well_formed. apply (bool_decide_unpack _). vm_compute. reflexivity.
Qed.

(** [create_cuboid((100.0, 100.0, 5.0), (20, 20, 1))] of the docstring. *)
Lemma create_cuboid_forwards_witness :
  create_cuboid demo 0
    (VTuple [VFloat 0x4059000000000000; VFloat 0x4059000000000000;
             VFloat 0x4014000000000000])
    (VTuple [VInt 20; VInt 20; VInt 1]) demo_state =
  (Ok VNone,
   after_calls demo_state 4
     [(numpy_array
         (VTuple [VFloat 0x4059000000000000; VFloat 0x4059000000000000;
                  VFloat 0x4014000000000000]) dtype_d,
       Ok (VList [VFloat 0x4059000000000000; VFloat 0x4059000000000000;
                  VFloat 0x4014000000000000]));
      (numpy_array (VTuple [VInt 20; VInt 20; VInt 1]) dtype_i,
       Ok (VList [VInt 20; VInt 20; VInt 1]));
      (cpp_create_cuboid 0
         (VList [VFloat 0x4059000000000000; VFloat 0x4059000000000000;
                 VFloat 0x4014000000000000])
         (VList [VInt 20; VInt 20; VInt 1]), Ok VNone)]).
Proof.
  apply (create_cuboid_forwards demo 0 _ _ demo_state _ 2 _ 3 _ 4);
    reflexivity.
Defined.

(** [create_shell(2, 0.1, (10, 10, 10))] and [create_shell(2)] of the
    docstring: arguments given, and every optional argument omitted. *)
Lemma create_shell_forwards_witness :
  create_shell demo 0 (VInt 2) (Some (VFloat 0x3FB999999999999A))
    (Some (VTuple [VInt 10; VInt 10; VInt 10])) None demo_state =
  (Ok VNone,
   after_calls demo_state 3
     [(numpy_array (VTuple [VInt 10; VInt 10; VInt 10]) dtype_i,
       Ok (VList [VInt 10; VInt 10; VInt 10]));
      (cpp_create_shell 0 (VInt 2) (VFloat 0x3FB999999999999A)
         (VList [VInt 10; VInt 10; VInt 10]) (VFloat 0x3FF0000000000000),
       Ok VNone)])
  /\
  create_shell demo 0 (VInt 2) None None None demo_state =
  (Ok VNone,
   after_calls demo_state 3
     [(numpy_array (VTuple [VInt 0; VInt 0; VInt 0]) dtype_i,
       Ok (VList [VInt 0; VInt 0; VInt 0]));
      (cpp_create_shell 0 (VInt 2) (VFloat 0) (VList [VInt 0; VInt 0; VInt 0])
         (VFloat 0x3FF0000000000000), Ok VNone)]).
Proof.
  split.
  - apply (create_shell_forwards demo 0 (VInt 2)
             (Some (VFloat 0x3FB999999999999A))
             (Some (VTuple [VInt 10; VInt 10; VInt 10])) None demo_state
             _ 2 _ 3); reflexivity.
  - apply (create_shell_forwards demo 0 (VInt 2) None None None demo_state
             _ 2 _ 3); reflexivity.
Defined.



(** A cell domain and a facet domain with an id that the engine refuses. *)
Lemma create_domain_retains_on_error_witness :
  create_celldomain demo 0 (VObj 100) (VInt (-1)) demo_state =
    (Raise (Foreign (VStr "invalid domain id")),
     {| next_addr := 1;
        attrs := <[0 := {| _celldomains := [VObj 100]; _facetdomains := [] |}]>
                   (attrs demo_state);
        world := 2;
        log := log demo_state ++
               [(cpp_create_celldomain 0 (VObj 100) (VInt (-1)),
                 Raise (Foreign (VStr "invalid domain id")))] |})
  /\
  create_facetdomain demo 0 (VObj 100) (VInt (-1)) demo_state =
    (Raise (Foreign (VStr "invalid domain id")),
     {| next_addr := 1;
        attrs := <[0 := {| _celldomains := []; _facetdomains := [VObj 100] |}]>
                   (attrs demo_state);
        world := 2;
        log := log demo_state ++
               [(cpp_create_facetdomain 0 (VObj 100) (VInt (-1)),
                 Raise (Foreign (VStr "invalid domain id")))] |}).
Proof.
  pose proof (create_domain_retains_on_error demo 0 (VObj 100) (VInt (-1))
                demo_state {| _celldomains := []; _facetdomains := [] |}
                (Foreign (VStr "invalid domain id")) 2 eq_refl) as [Hc Hf].
  split; [apply Hc | apply Hf]; reflexivity.
Defined.

(** After [demo_session] the first instance holds the two cell classifiers,
    the refused one included, and the facet classifier. *)
Lemma domain_lists_grow_witness :
  exists o',
    attrs (run_client demo demo_session demo_state) !! 0 = Some o' /\
    _celldomains o' = [VObj 100; VObj 101] /\
    _facetdomains o' = [VObj 102].
Proof.
  destruct (domain_lists_grow demo 0
              {| _celldomains := []; _facetdomains := [] |}
              demo_session demo_state demo_state_well_formed eq_refl)
    as (o' & Ho' & Hc & Hf & _).
  exists o'. split; [exact Ho' | split; [exact Hc | exact Hf]].
Defined.

(** [propagates] at the refused cell domain and at [Mesh("model.stl")]. *)
Lemma foreign_exceptions_propagate_witness :
  propagates (invoke demo 0 (call_create_celldomain (VObj 100) (VInt (-1))))
  /\ propagates (Mesh demo [VStr "model.stl"] []).
Proof.
  split.
  - apply (proj1 (foreign_exceptions_propagate demo)).
  - apply (proj2 (proj2 (foreign_exceptions_propagate demo))).
Defined.

(** ** Where the pattern departs from the suffix test *)

(** C1: the code at ["a.xml" + line feed].  The string does not end in
    [.xml], and yet [Mesh] hands it to [dolfin.Mesh] without instantiating
    [Mesher]: the only foreign call is the initialiser of [dolfin.Mesh] with
    the string, and no call reaches [cpp.Mesher]. *)
Lemma Mesh_trailing_line_feed :
  ends_with ".xml" ("a.xml" +:+ LF) = false /\
  Mesh quiet [VStr ("a.xml" +:+ LF)] [] (empty_state tt) =
    (Ok (VObj 0),
     after_calls (after_alloc (empty_state tt)) tt
       [(dolfin_Mesh___init__ 0 [VStr ("a.xml" +:+ LF)] [], Ok VNone)]) /\
  existsb (fun entry => is_Mesher_call (fst entry))
    (log (snd (Mesh quiet [VStr ("a.xml" +:+ LF)] [] (empty_state tt))))
    = false.
Proof. repeat split; reflexivity. Qed.

(** C2: the code at [line feed + ".xml"].  The string ends in [.xml], and
    yet [Mesh] instantiates [Mesher], reads the file and meshes: three of its
    four foreign calls reach [cpp.Mesher], and [dolfin.Mesh] does not get
    the argument. *)
Lemma Mesh_inner_line_feed :
  ends_with ".xml" (LF +:+ ".xml") = true /\
  Mesh quiet [VStr (LF +:+ ".xml")] [] (empty_state tt) =
    (Ok (VObj 1),
     {| next_addr := 2;
        attrs := <[0 := {| _celldomains := []; _facetdomains := [] |}]> ∅;
        world := tt;
        log := combine (file_route 0 (VStr (LF +:+ ".xml")))
                 [Ok VNone; Ok VNone; Ok VNone; Ok VNone] |}) /\
  existsb (fun entry => is_Mesher_call (fst entry))
    (log (snd (Mesh quiet [VStr (LF +:+ ".xml")] [] (empty_state tt))))
    = true.
Proof. repeat split; reflexivity. Qed.

(** C10: the code at ["mesh.xml" + line feed] with a keyword argument.  The
    string does not end in [.xml], and yet the keyword argument is not
    dropped but handed to [dolfin.Mesh], and no [Mesher] is instantiated. *)
Lemma Mesh_keeps_kwargs_after_line_feed :
  ends_with ".xml" ("mesh.xml" +:+ LF) = false /\
  Mesh quiet [VStr ("mesh.xml" +:+ LF)] [("comm", VObj 5)] (empty_state tt) =
    (Ok (VObj 0),
     after_calls (after_alloc (empty_state tt)) tt
       [(dolfin_Mesh___init__ 0 [VStr ("mesh.xml" +:+ LF)] [("comm", VObj 5)],
         Ok VNone)]).
Proof. split; reflexivity. Qed.


(** ** The further properties at concrete calls *)

Lemma quiet_state_well_formed : well_formed quiet_state.
Proof.
  unfold well_formed. apply (bool_decide_unpack _). vm_compute. reflexivity.
Qed.

Lemma pattern_and_suffix_witness :
  sre.match_here sre.xml_pattern "model.stl" = ends_with ".xml" "model.stl"
  /\ ends_with ".xml" "saved.xml" || ends_with (".xml" +:+ LF) "saved.xml"
     = true.
Proof.
  split.
  - apply (proj1 (pattern_and_suffix "model.stl")). reflexivity.
  - apply (proj2 (pattern_and_suffix "saved.xml")). reflexivity.
Defined.

(** [Mesh(obj)] for an object that is not a string. *)
Lemma Mesh_single_non_string_witness :
  exists msg,
    Mesh demo [VObj 5] [("comm", VObj 6)] demo_state
    = (Raise (TypeError msg), demo_state).
Proof.
  apply (Mesh_single_non_string demo (VObj 5)). intros s. discriminate.
Defined.


(** A size that is no sequence, and a discretisation that is none. *)
Lemma create_cuboid_coercion_fails_witness :
  create_cuboid demo 0 (VInt 3) (VTuple [VInt 1; VInt 1; VInt 1]) demo_state =
    (Raise (TypeError "not a sequence"),
     after_calls demo_state 2
       [(numpy_array (VInt 3) dtype_d, Raise (TypeError "not a sequence"))])
  /\
  create_cuboid demo 0 (VTuple [VInt 1; VInt 1; VInt 1]) (VInt 3) demo_state =
    (Raise (TypeError "not a sequence"),
     after_calls demo_state 3
       [(numpy_array (VTuple [VInt 1; VInt 1; VInt 1]) dtype_d,
         Ok (VList [VInt 1; VInt 1; VInt 1]));
        (numpy_array (VInt 3) dtype_i, Raise (TypeError "not a sequence"))]).
Proof.
  split.
  - apply (proj1 (create_cuboid_coercion_fails demo 0 (VInt 3) _ demo_state)).
    reflexivity.
  - apply (proj2 (create_cuboid_coercion_fails demo 0 _ (VInt 3) demo_state)
             _ 2); reflexivity.
Defined.

Lemma mesh_failures_witness :
  mesh faulty 0 None None quiet_state =
    (Raise (Foreign (VStr "RuntimeError")),
     after_calls (after_alloc quiet_state) tt
       [(dolfin_Mesh___init__ 1 [] [], Ok VNone);
        (cpp_mesh 0 (VObj 1) (VFloat 0x3FF0000000000000),
         Raise (Foreign (VStr "RuntimeError")))]).
Proof.
  apply (proj2 (mesh_failures faulty 0 None quiet_state) VNone tt _ tt);
    reflexivity.
Defined.

Lemma Mesher_new_instance_witness :
  Mesher demo demo_state =
    (Ok 1,
     {| next_addr := 2;
        attrs := <[1 := fresh_attrs]> (attrs demo_state);
        world := 2;
        log := log demo_state ++ [(cpp_Mesher___init__ 1, Ok VNone)] |})
  /\ attrs (snd (Mesher demo demo_state)) !! 0 = Some fresh_attrs.
Proof.
  split.
  - apply (proj1 (Mesher_new_instance demo demo_state) VNone 2). reflexivity.
  - apply (proj2 (proj2 (Mesher_new_instance demo demo_state))
             demo_state_well_formed 0 fresh_attrs).
    reflexivity.
Defined.

Lemma Mesh_unreadable_file_witness :
  Mesh faulty [VStr "model.stl"] [] (empty_state tt) =
    (Raise (Foreign (VStr "IOError")),
     {| next_addr := 1;
        attrs := <[0 := fresh_attrs]> ∅;
        world := tt;
        log := [(cpp_Mesher___init__ 0, Ok VNone);
                (cpp_read_file 0 (VStr "model.stl"),
                 Raise (Foreign (VStr "IOError")))] |}).
Proof.
  apply (Mesh_unreadable_file faulty "model.stl" [] (empty_state tt)
           VNone tt _ tt
           (proj1 (unmatched_xml_pattern "model.stl") eq_refl));
    reflexivity.
Defined.

Lemma methods_raise_only_foreign_witness :
  raises_only_foreign
    (invoke demo 0 (call_get_sample_size None (Some (VStr "two")))).
Proof.
  apply (proj2 (methods_raise_only_foreign demo) 0); discriminate.
Defined.

(** Address 5 holds no [Mesher] in [demo_state]. *)
Lemma create_domain_uninitialised_witness :
  create_celldomain demo 5 (VObj 100) (VInt 1) demo_state =
    (Raise (AttributeError "_celldomains"), demo_state) /\
  create_facetdomain demo 5 (VObj 100) (VInt 1) demo_state =
    (Raise (AttributeError "_facetdomains"), demo_state).
Proof.
  apply (create_domain_uninitialised demo 5 (VObj 100) (VInt 1) demo_state).
  reflexivity.
Defined.

(** [demo_session] from the start: the two cell domains come before any
    instance exists and are lost; the [Mesher] that [Mesh] makes gets address
    0 and later the facet domain. *)
Lemma lists_hold_only_passed_classifiers_witness :
  [] `suffix_of` celldomain_args 0 demo_session /\
  [VObj 102] `suffix_of` facetdomain_args 0 demo_session.
Proof.
  apply (lists_hold_only_passed_classifiers demo demo_session 0 0
           {| _celldomains := []; _facetdomains := [VObj 102] |}).
  vm_compute. reflexivity.
Defined.

Lemma lists_independent_of_foreign_side_witness :
  attrs (run_client demo demo_session demo_state) !! 0 =
  attrs (run_client faulty demo_session quiet_state) !! 0.
Proof.
  apply (lists_independent_of_foreign_side demo faulty demo_session
           demo_state quiet_state 0 fresh_attrs
           demo_state_well_formed quiet_state_well_formed);
    reflexivity.
Defined.

(** [Mesh("model.stl", comm=...)] *)
Lemma Mesh_one_line_file_witness :
  Mesh demo [VStr "model.stl"] [("comm", VObj 5)] (empty_state 0) =
    (Ok (VObj 1),
     {| next_addr := 2;
        attrs := <[0 := fresh_attrs]> ∅;
        world := 4;
        log := combine (file_route 0 (VStr "model.stl"))
                 [Ok VNone; Ok VNone; Ok VNone; Ok VNone] |})
  /\
  Mesh demo [VStr "model.stl"] [("comm", VObj 5)] (empty_state 0) =
  Mesh demo [VStr "model.stl"] [] (empty_state 0).
Proof.
  destruct (Mesh_one_line_file demo "model.stl" [("comm", VObj 5)]
              (empty_state 0) eq_refl eq_refl) as (_ & _ & C & D).
  split.
  - apply (C VNone 1 VNone 2 VNone 3 VNone 4); reflexivity.
  - apply D.
Defined.

(** [Mesh("saved.xml")] and a call with two positional arguments. *)
Lemma Mesh_one_line_direct_witness :
  Mesh demo [VStr "saved.xml"] [] (empty_state 0) =
    (Ok (VObj 0),
     after_calls (after_alloc (empty_state 0)) 1
       [(dolfin_Mesh___init__ 0 [VStr "saved.xml"] [], Ok VNone)])
  /\
  Mesh demo [VStr "model.stl"; VStr "saved.xml"] [("comm", VObj 5)]
    (empty_state 0) =
    (Ok (VObj 0),
     after_calls (after_alloc (empty_state 0)) 1
       [(dolfin_Mesh___init__ 0 [VStr "model.stl"; VStr "saved.xml"]
           [("comm", VObj 5)], Ok VNone)]).
Proof.
  split.
  - destruct (Mesh_one_line_direct demo [VStr "saved.xml"] [] (empty_state 0))
      as (r & w & E & H).
    + right. exists "saved.xml". repeat split; reflexivity.
    + injection E as <- <-. exact H.
  - destruct (Mesh_one_line_direct demo [VStr "model.stl"; VStr "saved.xml"]
                [("comm", VObj 5)] (empty_state 0)) as (r & w & E & H).
    + left. simpl. lia.
    + injection E as <- <-. exact H.
Defined.

